(** * Wireless power transfer calculator: the physics pipeline of [main.py]

    A shallow embedding of the formula stages of [src/main.py]
    ([calculate_self_inductance] ... [calculate_power_transfer]) and the
    properties the specification states about them.

    Number model.  Python [float] values are read as real numbers, so the
    arithmetic below is exact: rounding, overflow (which the power operator
    reports as OverflowError) and underflow of IEEE doubles are outside
    this model.  Python [int] values (the turn counts) are [Z] and enter
    the float arithmetic through [IZR].  What the model does keep of the
    run-time behaviour is every way exact arithmetic can raise:
    a float division raises [ZeroDivisionError] on a zero divisor,
    [math.sqrt] raises [ValueError] on a negative argument, and a negative
    base under a fractional exponent leaves the floats.  Fallible code runs in
    the error monad [res]. *)

From Stdlib Require Import Reals Lra Lia ZArith String Bool Psatz List.
Import ListNotations.

Open Scope R_scope.

(** ** Exceptions and the error monad *)

Inductive exn : Type :=
| ZeroDivisionError   (* float division by zero *)
| ValueError          (* math domain error *)
| ComplexResult.      (* negative float ** fractional exponent *)

Inductive res (A : Type) : Type :=
| Ok (a : A)
| Raise (e : exn).

Arguments Ok {A} a.
Arguments Raise {A} e.

Definition bind {A B : Type} (c : res A) (k : A -> res B) : res B :=
  match c with
  | Ok a => k a
  | Raise e => Raise e
  end.

Notation "x <- c ;; k" := (bind c (fun x => k))
  (at level 61, c at next level, right associativity).
Notation "' pat <- c ;; k" := (bind c (fun x => match x with pat => k end))
  (at level 61, pat pattern, c at next level, right associativity).

(** ** Float primitives *)

(** [x > y] on floats, as a boolean. *)
Definition Rgtb (x y : R) : bool := if Rlt_dec y x then true else false.

(** [x / y]. *)
Definition fdiv (x y : R) : res R :=
  if Req_dec_T y 0 then Raise ZeroDivisionError else Ok (x / y).

(** [math.sqrt(x)]. *)
Definition fsqrt (x : R) : res R :=
  if Rlt_dec x 0 then Raise ValueError else Ok (sqrt x).

(** [x ** y] for a float [x] and a positive, non-integral float [y]. *)
Definition fpow (x y : R) : res R :=
  if Rlt_dec 0 x then Ok (Rpower x y)
  else if Req_dec_T x 0 then Ok 0
  else Raise ComplexResult.

(** ** Data model *)

(** The request record.  The core enforces none of the domain constraints. *)
Record SimulationParams : Type := {
  primary_turns : Z;
  secondary_turns : Z;
  coil_radius : R;
  wire_diameter : R;
  air_gap : R;
  frequency : R;
  input_power : R;
  input_voltage : R;
  load_resistance : R
}.

(** The result dictionary, one record per group. *)
Record Inductances : Type := {
  primary_uH : R;
  secondary_uH : R;
  mutual_uH : R
}.

Record Coupling : Type := {
  coefficient : R;
  critical_k : R;
  status : string
}.

Record Resonance : Type := {
  capacitor_primary_nF : R;
  capacitor_secondary_nF : R
}.

Record QualityFactors : Type := {
  Q1 : R;
  Q2 : R
}.

Record Efficiency : Type := {
  percent : R;
  max_percent : R;
  optimal_load_ohm : R;
  power_input_W : R;
  power_output_W : R;
  power_loss_W : R
}.

Record Currents : Type := {
  primary_A : R;
  secondary_A : R
}.

Record CoilResistance : Type := {
  primary_dc_mOhm : R;
  secondary_dc_mOhm : R;
  primary_ac_mOhm : R;
  secondary_ac_mOhm : R
}.

Record SkinEffect : Type := {
  skin_depth_mm : R;
  resistance_ratio : R
}.

Record PowerTransferResult : Type := {
  inductances : Inductances;
  coupling : Coupling;
  resonance : Resonance;
  quality_factors : QualityFactors;
  efficiency : Efficiency;
  currents : Currents;
  coil_resistance : CoilResistance;
  skin_effect : SkinEffect
}.

(** ** Constants *)

(** [mu_0 = 4 * math.pi * 1e-7] *)
Definition mu_0 : R := 4 * PI * 1e-7.

(** [resistivity_copper = 1.68e-8] *)
Definition resistivity_copper : R := 1.68e-8.

(** ** The formula stages *)

Definition calculate_self_inductance (turns : Z) (radius wire_diameter : R)
  : res R :=
  let area := PI * radius ^ 2 in
  let coil_length := IZR turns * wire_diameter in
  q <- fdiv (0.9 * radius) coil_length ;;
  k_factor <- fdiv 1 (1 + q) ;;
  fdiv (mu_0 * IZR (turns ^ 2) * area * k_factor) coil_length.

Definition calculate_mutual_inductance (n1 n2 : Z) (r1 r2 distance : R)
  : res R :=
  let r_eff_sq := r1 * r1 * r2 * r2 in
  let avg_r_sq := (r1 ^ 2 + r2 ^ 2) / 2 in
  p <- fpow (avg_r_sq + distance ^ 2) 1.5 ;;
  fdiv (mu_0 * PI * IZR n1 * IZR n2 * r_eff_sq) (2 * p).

Definition calculate_coupling_coefficient (L1 L2 M : R) : res R :=
  if Rgtb L1 0 && Rgtb L2 0
  then s <- fsqrt (L1 * L2) ;; fdiv M s
  else Ok 0.

Definition calculate_resonant_capacitance (inductance frequency : R) : res R :=
  let omega := 2 * PI * frequency in
  fdiv 1 (omega ^ 2 * inductance).

Definition calculate_ac_resistance (dc_resistance wire_diameter frequency : R)
  : res (R * R) :=
  q <- fdiv resistivity_copper (PI * frequency * mu_0) ;;
  skin_depth <- fsqrt q ;;
  let wire_radius := wire_diameter / 2 in
  ratio <- fdiv wire_radius skin_depth ;;
  if Rgtb ratio 2
  then
    t <- fdiv wire_radius (2 * skin_depth) ;;
    Ok (dc_resistance * t, skin_depth)
  else
    Ok (dc_resistance * (1 + ratio ^ 4 / 48), skin_depth).

(** ** The aggregator *)

Definition calculate_power_transfer (params : SimulationParams)
  : res PowerTransferResult :=
  L1 <- calculate_self_inductance
          params.(primary_turns) params.(coil_radius) params.(wire_diameter) ;;
  L2 <- calculate_self_inductance
          params.(secondary_turns) params.(coil_radius) params.(wire_diameter) ;;
  M <- calculate_mutual_inductance
         params.(primary_turns) params.(secondary_turns)
         params.(coil_radius) params.(coil_radius) params.(air_gap) ;;
  k <- calculate_coupling_coefficient L1 L2 M ;;
  let omega := 2 * PI * params.(frequency) in
  C1 <- calculate_resonant_capacitance L1 params.(frequency) ;;
  C2 <- calculate_resonant_capacitance L2 params.(frequency) ;;
  let X_L1 := omega * L1 in
  let X_L2 := omega * L2 in
  let X_M := omega * M in
  let wire_length_1 := 2 * PI * params.(coil_radius) * IZR params.(primary_turns) in
  let wire_length_2 := 2 * PI * params.(coil_radius) * IZR params.(secondary_turns) in
  let wire_area := PI * (params.(wire_diameter) / 2) ^ 2 in
  R1_dc <- fdiv (resistivity_copper * wire_length_1) wire_area ;;
  R2_dc <- fdiv (resistivity_copper * wire_length_2) wire_area ;;
  '(R1_ac, skin_depth) <-
    calculate_ac_resistance R1_dc params.(wire_diameter) params.(frequency) ;;
  '(R2_ac, _) <-
    calculate_ac_resistance R2_dc params.(wire_diameter) params.(frequency) ;;
  Q1 <- (if Rgtb R1_ac 0 then fdiv X_L1 R1_ac else Ok 0) ;;
  Q2 <- (if Rgtb R2_ac 0 then fdiv X_L2 R2_ac else Ok 0) ;;
  let kQ_product := k ^ 2 * Q1 * Q2 in
  efficiency_max <-
    (if Rgtb kQ_product 0
     then s <- fsqrt (1 + kQ_product) ;; fdiv kQ_product ((1 + s) ^ 2)
     else Ok 0) ;;
  let omega_M_sq := (omega * M) ^ 2 in
  let R2_total := R2_ac + params.(load_resistance) in
  efficiency <-
    (if Rgtb omega_M_sq 0 && Rgtb R2_total 0
     then
       Z_reflected <- fdiv omega_M_sq R2_total ;;
       eta_primary <- fdiv Z_reflected (R1_ac + Z_reflected) ;;
       eta_secondary <- fdiv params.(load_resistance) R2_total ;;
       Ok (eta_primary * eta_secondary)
     else Ok 0) ;;
  optimal_load <-
    (if Rgtb kQ_product 0
     then s <- fsqrt (1 + kQ_product) ;; Ok (R2_ac * s)
     else Ok 0) ;;
  let power_input := params.(input_power) in
  let power_output := power_input * efficiency in
  let power_loss := power_input - power_output in
  I_primary <-
    (if Rgtb params.(input_voltage) 0
     then fdiv power_input params.(input_voltage)
     else Ok 0) ;;
  I_secondary <-
    (if Rgtb params.(load_resistance) 0 && Rgtb power_output 0
     then q <- fdiv power_output params.(load_resistance) ;; fsqrt q
     else Ok 0) ;;
  k_critical <-
    (if Rgtb Q1 0 && Rgtb Q2 0
     then s <- fsqrt (Q1 * Q2) ;; fdiv 1 s
     else Ok 0) ;;
  let coupling_status :=
    if Rgtb k k_critical then "over-coupled"%string
    else if Rgtb 0.01 (Rabs (k - k_critical)) then "critically-coupled"%string
    else "under-coupled"%string in
  ratio <- (if Rgtb R1_dc 0 then fdiv R1_ac R1_dc else Ok 1) ;;
  Ok {|
    inductances := {|
      primary_uH := L1 * 1e6;
      secondary_uH := L2 * 1e6;
      mutual_uH := M * 1e6 |};
    coupling := {|
      coefficient := k;
      critical_k := k_critical;
      status := coupling_status |};
    resonance := {|
      capacitor_primary_nF := C1 * 1e9;
      capacitor_secondary_nF := C2 * 1e9 |};
    quality_factors := {| Q1 := Q1; Q2 := Q2 |};
    efficiency := {|
      percent := efficiency * 100;
      max_percent := efficiency_max * 100;
      optimal_load_ohm := optimal_load;
      power_input_W := power_input;
      power_output_W := power_output;
      power_loss_W := power_loss |};
    currents := {| primary_A := I_primary; secondary_A := I_secondary |};
    coil_resistance := {|
      primary_dc_mOhm := R1_dc * 1000;
      secondary_dc_mOhm := R2_dc * 1000;
      primary_ac_mOhm := R1_ac * 1000;
      secondary_ac_mOhm := R2_ac * 1000 |};
    skin_effect := {|
      skin_depth_mm := skin_depth * 1000;
      resistance_ratio := ratio |}
  |}.

(** ** Closed forms of the stages

    The value each stage returns when nothing raises, written as one
    expression.  The lemmas below prove that the code computes them. *)

(** Wheeler's single-layer solenoid inductance. *)
Definition solenoid_inductance (turns : Z) (radius wire_diameter : R) : R :=
  let coil_length := IZR turns * wire_diameter in
  mu_0 * IZR (turns ^ 2) * (PI * radius ^ 2)
  * (1 / (1 + 0.9 * radius / coil_length)) / coil_length.

(** Coaxial-coil mutual inductance. *)
Definition coaxial_mutual (n1 n2 : Z) (r1 r2 distance : R) : R :=
  mu_0 * PI * IZR n1 * IZR n2 * (r1 * r1 * r2 * r2)
  / (2 * Rpower ((r1 ^ 2 + r2 ^ 2) / 2 + distance ^ 2) 1.5).

(** DC resistance of the winding: resistivity * wire length / wire area. *)
Definition wire_dc_resistance (turns : Z) (radius wire_diameter : R) : R :=
  resistivity_copper * (2 * PI * radius * IZR turns)
  / (PI * (wire_diameter / 2) ^ 2).

(** Skin depth in copper: sqrt(rho / (pi f mu0)). *)
Definition skin_depth_of (frequency : R) : R :=
  sqrt (resistivity_copper / (PI * frequency * mu_0)).

(** Wire radius over skin depth. *)
Definition skin_ratio (wire_diameter frequency : R) : R :=
  (wire_diameter / 2) / skin_depth_of frequency.

(** The piecewise model of section 4.5 in the spec's words: thick-wire
    regime for ratio > 2.0, thin-wire regime for ratio <= 2.0. *)
Definition spec_ac_resistance (dc_resistance wire_diameter frequency : R) : R :=
  if Rlt_dec 2 (skin_ratio wire_diameter frequency)
  then dc_resistance * ((wire_diameter / 2) / (2 * skin_depth_of frequency))
  else dc_resistance * (1 + skin_ratio wire_diameter frequency ^ 4 / 48).

(** The AC/DC factor, which does not depend on the DC resistance. *)
Definition skin_factor (wire_diameter frequency : R) : R :=
  spec_ac_resistance 1 wire_diameter frequency.

(** Efficiency of the series-series link at resonance, from the two AC
    resistances, X = (omega M)^2 and the load: eta_primary * eta_secondary. *)
Definition link_efficiency (R1 R2 X RL : R) : R :=
  X / (R2 + RL) / (R1 + X / (R2 + RL)) * (RL / (R2 + RL)).

(** The result record of [calculate_power_transfer] on coil-valid input,
    with every guard that such input decides already resolved. *)
Definition power_transfer_values (params : SimulationParams)
  : PowerTransferResult :=
  let L1 := solenoid_inductance
              params.(primary_turns) params.(coil_radius) params.(wire_diameter) in
  let L2 := solenoid_inductance
              params.(secondary_turns) params.(coil_radius) params.(wire_diameter) in
  let M := coaxial_mutual
             params.(primary_turns) params.(secondary_turns)
             params.(coil_radius) params.(coil_radius) params.(air_gap) in
  let k := M / sqrt (L1 * L2) in
  let omega := 2 * PI * params.(frequency) in
  let R1_dc := wire_dc_resistance
                 params.(primary_turns) params.(coil_radius) params.(wire_diameter) in
  let R2_dc := wire_dc_resistance
                 params.(secondary_turns) params.(coil_radius) params.(wire_diameter) in
  let R1_ac := spec_ac_resistance R1_dc params.(wire_diameter) params.(frequency) in
  let R2_ac := spec_ac_resistance R2_dc params.(wire_diameter) params.(frequency) in
  let Q1 := omega * L1 / R1_ac in
  let Q2 := omega * L2 / R2_ac in
  let kQ_product := k ^ 2 * Q1 * Q2 in
  let efficiency :=
    if Rgtb (R2_ac + params.(load_resistance)) 0
    then link_efficiency R1_ac R2_ac ((omega * M) ^ 2) params.(load_resistance)
    else 0 in
  let power_output := params.(input_power) * efficiency in
  let k_critical := 1 / sqrt (Q1 * Q2) in
  {|
    inductances := {|
      primary_uH := L1 * 1e6;
      secondary_uH := L2 * 1e6;
      mutual_uH := M * 1e6 |};
    coupling := {|
      coefficient := k;
      critical_k := k_critical;
      status :=
        if Rgtb k k_critical then "over-coupled"%string
        else if Rgtb 0.01 (Rabs (k - k_critical)) then "critically-coupled"%string
        else "under-coupled"%string |};
    resonance := {|
      capacitor_primary_nF := 1 / (omega ^ 2 * L1) * 1e9;
      capacitor_secondary_nF := 1 / (omega ^ 2 * L2) * 1e9 |};
    quality_factors := {| Q1 := Q1; Q2 := Q2 |};
    efficiency := {|
      percent := efficiency * 100;
      max_percent := kQ_product / (1 + sqrt (1 + kQ_product)) ^ 2 * 100;
      optimal_load_ohm := R2_ac * sqrt (1 + kQ_product);
      power_input_W := params.(input_power);
      power_output_W := power_output;
      power_loss_W := params.(input_power) - power_output |};
    currents := {|
      primary_A :=
        if Rgtb params.(input_voltage) 0
        then params.(input_power) / params.(input_voltage) else 0;
      secondary_A :=
        if Rgtb params.(load_resistance) 0 && Rgtb power_output 0
        then sqrt (power_output / params.(load_resistance)) else 0 |};
    coil_resistance := {|
      primary_dc_mOhm := R1_dc * 1000;
      secondary_dc_mOhm := R2_dc * 1000;
      primary_ac_mOhm := R1_ac * 1000;
      secondary_ac_mOhm := R2_ac * 1000 |};
    skin_effect := {|
      skin_depth_mm := skin_depth_of params.(frequency) * 1000;
      resistance_ratio := R1_ac / R1_dc |}
  |}.

(** ** Requests *)


(** The request of the spec's worked example (the defaults of the model). *)
Definition example_params : SimulationParams :=
  {| primary_turns := 20;
     secondary_turns := 20;
     coil_radius := 0.025;
     wire_diameter := 0.001;
     air_gap := 0.005;
     frequency := 200000;
     input_power := 10;
     input_voltage := 24;
     load_resistance := 10 |}.

(** The worked example with an empty primary coil. *)
Definition zero_turns_params : SimulationParams :=
  {| primary_turns := 0;
     secondary_turns := 20;
     coil_radius := 0.025;
     wire_diameter := 0.001;
     air_gap := 0.005;
     frequency := 200000;
     input_power := 10;
     input_voltage := 24;
     load_resistance := 10 |}.

(** The worked example with coils of radius zero, hence of inductance zero. *)
Definition zero_radius_params : SimulationParams :=
  {| primary_turns := 20;
     secondary_turns := 20;
     coil_radius := 0;
     wire_diameter := 0.001;
     air_gap := 0.005;
     frequency := 200000;
     input_power := 10;
     input_voltage := 24;
     load_resistance := 10 |}.

(** The coil and drive constraints under which every stage is defined. *)
Definition coil_valid (params : SimulationParams) : Prop :=
  (0 < params.(primary_turns))%Z /\ (0 < params.(secondary_turns))%Z /\
  0 < params.(coil_radius) /\ 0 < params.(wire_diameter) /\
  0 < params.(frequency).

(** The domain constraints of the data model (section 3 of the spec). *)
Definition domain_valid (params : SimulationParams) : Prop :=
  (0 < params.(primary_turns))%Z /\ (0 < params.(secondary_turns))%Z /\
  0 < params.(coil_radius) /\ 0 < params.(wire_diameter) /\
  0 < params.(frequency) /\ 0 <= params.(air_gap) /\
  0 <= params.(input_power) /\ 0 < params.(input_voltage) /\
  0 <= params.(load_resistance).


(** ** The sweep drivers *)

(** [numpy.linspace(start, stop, num)] with the end point included, in
    exact arithmetic: [arange(0, num) * step + start], the last sample set
    to [stop] when there is more than one; a negative [num] is a
    ValueError. *)
Definition linspace (start stop : R) (num : Z) : res (list R) :=
  if (num <? 0)%Z then Raise ValueError
  else
    let div := (num - 1)%Z in
    let delta := stop - start in
    let step := if (0 <? div)%Z then delta / IZR div else delta in
    let y := map (fun i => INR i * step + start) (seq 0 (Z.to_nat num)) in
    Ok (if (1 <? num)%Z then removelast y ++ [stop] else y).

Module AirgapSweep.
Record t : Type := {
  gaps_mm : list R;
  efficiencies : list R;
  couplings : list R;
  power_outputs : list R;
  power_inputs : list R;
  power_losses : list R
}.
End AirgapSweep.

Module FrequencySweep.
Record t : Type := {
  frequencies_kHz : list R;
  efficiencies : list R
}.
End FrequencySweep.

(** The five lists the air-gap loop appends to. *)
Record AirgapColumns : Type := {
  col_efficiencies : list R;
  col_couplings : list R;
  col_power_outputs : list R;
  col_power_inputs : list R;
  col_power_losses : list R
}.

(** The request built for one sample of the air-gap sweep. *)
Definition airgap_point
  (frequency power coil_radius : R) (primary_turns secondary_turns : Z)
  (load_resistance input_voltage wire_diameter : R) (gap : R)
  : SimulationParams :=
  {| primary_turns := primary_turns;
     secondary_turns := secondary_turns;
     coil_radius := coil_radius;
     wire_diameter := wire_diameter;
     air_gap := gap;
     frequency := frequency;
     input_power := power;
     input_voltage := input_voltage;
     load_resistance := load_resistance |}.

(** [for gap in gaps: ...], appending to the five lists; the first sample
    that raises ends the loop. *)
Fixpoint sweep_airgap_loop (point : R -> SimulationParams) (gaps : list R)
  (acc : AirgapColumns) : res AirgapColumns :=
  match gaps with
  | [] => Ok acc
  | gap :: rest =>
      result <- calculate_power_transfer (point gap) ;;
      sweep_airgap_loop point rest
        {| col_efficiencies :=
             acc.(col_efficiencies) ++ [result.(efficiency).(percent)];
           col_couplings :=
             acc.(col_couplings) ++ [result.(coupling).(coefficient)];
           col_power_outputs :=
             acc.(col_power_outputs) ++ [result.(efficiency).(power_output_W)];
           col_power_inputs :=
             acc.(col_power_inputs) ++ [result.(efficiency).(power_input_W)];
           col_power_losses :=
             acc.(col_power_losses) ++ [result.(efficiency).(power_loss_W)] |}
  end.

Definition sweep_airgap
  (min_gap max_gap : R) (steps : Z) (frequency power coil_radius : R)
  (primary_turns secondary_turns : Z)
  (load_resistance input_voltage wire_diameter : R) : res AirgapSweep.t :=
  gaps <- linspace min_gap max_gap steps ;;
  cols <- sweep_airgap_loop
            (airgap_point frequency power coil_radius primary_turns
               secondary_turns load_resistance input_voltage wire_diameter)
            gaps
            {| col_efficiencies := []; col_couplings := [];
               col_power_outputs := []; col_power_inputs := [];
               col_power_losses := [] |} ;;
  Ok {| AirgapSweep.gaps_mm := map (fun g => g * 1000) gaps;
        AirgapSweep.efficiencies := cols.(col_efficiencies);
        AirgapSweep.couplings := cols.(col_couplings);
        AirgapSweep.power_outputs := cols.(col_power_outputs);
        AirgapSweep.power_inputs := cols.(col_power_inputs);
        AirgapSweep.power_losses := cols.(col_power_losses) |}.




(** ** Primitives *)

Lemma fdiv_ok (x y : R) : y <> 0 -> fdiv x y = Ok (x / y).
Proof.
  intros Hy. unfold fdiv. destruct (Req_dec_T y 0); [contradiction | reflexivity].
Qed.

Lemma fdiv_by_zero (x y : R) : y = 0 -> fdiv x y = Raise ZeroDivisionError.
Proof.
  intros ->. unfold fdiv.
  destruct (Req_dec_T 0 0) as [_ | H]; [reflexivity | now elim H].
Qed.

Lemma fdiv_Ok_inv (x y z : R) : fdiv x y = Ok z -> y <> 0 /\ z = x / y.
Proof.
  unfold fdiv. destruct (Req_dec_T y 0); intros H; [discriminate |].
  injection H as <-. auto.
Qed.

Lemma fsqrt_ok (x : R) : 0 <= x -> fsqrt x = Ok (sqrt x).
Proof.
  intros Hx. unfold fsqrt. destruct (Rlt_dec x 0); [lra | reflexivity].
Qed.

Lemma fsqrt_Ok_inv (x y : R) : fsqrt x = Ok y -> 0 <= x /\ y = sqrt x.
Proof.
  unfold fsqrt. destruct (Rlt_dec x 0); intros H; [discriminate |].
  injection H as <-. split; [lra | reflexivity].
Qed.

Lemma fpow_pos (x y : R) : 0 < x -> fpow x y = Ok (Rpower x y).
Proof.
  intros Hx. unfold fpow. destruct (Rlt_dec 0 x); [reflexivity | contradiction].
Qed.

Lemma Rgtb_spec (x y : R) : Rgtb x y = true <-> y < x.
Proof.
  unfold Rgtb. destruct (Rlt_dec y x); split; intros; auto; discriminate.
Qed.

Lemma Rgtb_false_iff (x y : R) : Rgtb x y = false <-> x <= y.
Proof.
  unfold Rgtb. destruct (Rlt_dec y x); split; intros; auto; try discriminate; lra.
Qed.

Lemma Rgtb_true (x y : R) : y < x -> Rgtb x y = true.
Proof. apply Rgtb_spec. Qed.

Lemma Rgtb_false (x y : R) : x <= y -> Rgtb x y = false.
Proof. apply Rgtb_false_iff. Qed.

Lemma bind_Ok {A B : Type} (c : res A) (k : A -> res B) (b : B) :
  bind c k = Ok b -> exists a, c = Ok a /\ k a = Ok b.
Proof.
  destruct c as [a | e]; simpl; intros H; [eauto | discriminate].
Qed.

Lemma mu_0_pos : 0 < mu_0.
Proof. unfold mu_0. pose proof PI_RGT_0. lra. Qed.

Lemma resistivity_copper_pos : 0 < resistivity_copper.
Proof. unfold resistivity_copper. lra. Qed.

Lemma Rpower_pos (x y : R) : 0 < Rpower x y.
Proof. unfold Rpower. apply exp_pos. Qed.

(** ** Proof automation *)

(** Positivity goals built from products, quotients, roots and powers. *)
Ltac pos :=
  repeat match goal with
    | |- _ <> 0 => apply Rgt_not_eq; unfold Rgt
    | |- 0 < _ => assumption
    | |- 0 < PI => exact PI_RGT_0
    | |- 0 < mu_0 => exact mu_0_pos
    | |- 0 < resistivity_copper => exact resistivity_copper_pos
    | |- 0 < Rpower _ _ => apply Rpower_pos
    | |- 0 < IZR _ => apply IZR_lt; lia
    | |- 0 < _ / _ => apply Rdiv_lt_0_compat
    | |- 0 < _ * _ => apply Rmult_lt_0_compat
    | |- 0 < / _ => apply Rinv_0_lt_compat
    | |- 0 < sqrt _ => apply sqrt_lt_R0
    | |- 0 < _ ^ _ => apply pow_lt
    | |- 0 < _ => lra
    end.

(** Reduce the projections of a request or result record, and nothing else. *)
Ltac fields :=
  cbv zeta;
  cbn [inductances coupling resonance quality_factors efficiency currents
       coil_resistance skin_effect
       primary_uH secondary_uH mutual_uH coefficient critical_k status
       capacitor_primary_nF capacitor_secondary_nF Q1 Q2
       percent max_percent optimal_load_ohm
       power_input_W power_output_W power_loss_W primary_A secondary_A
       primary_dc_mOhm secondary_dc_mOhm primary_ac_mOhm secondary_ac_mOhm
       skin_depth_mm resistance_ratio
       primary_turns secondary_turns coil_radius wire_diameter air_gap
       frequency input_power input_voltage load_resistance].

(** Name the positive quantity of [H : 0 < t] everywhere. *)
Ltac name_of H x :=
  match type of H with 0 < ?t => set (x := t) in * end.

(** Peel the binds of [H : ... = Ok r] one by one. *)
Ltac inv_bind H :=
  repeat (cbv zeta in H;
          match type of H with
          | bind _ _ = Ok _ =>
              let x := fresh "v" in
              let Hx := fresh "Hv" in
              apply bind_Ok in H; destruct H as (x & Hx & H); cbv beta in H
          | match ?p with pair _ _ => _ end = Ok _ => destruct p
          end).

(** ** Skin effect *)

Lemma skin_depth_arg_pos (f : R) :
  0 < f -> 0 < resistivity_copper / (PI * f * mu_0).
Proof. intros Hf. pos. Qed.

Lemma skin_depth_of_pos (f : R) : 0 < f -> 0 < skin_depth_of f.
Proof.
  intros Hf. unfold skin_depth_of. apply sqrt_lt_R0, skin_depth_arg_pos, Hf.
Qed.

Lemma calculate_ac_resistance_eq (Rdc d f : R) :
  0 < f ->
  calculate_ac_resistance Rdc d f
  = Ok (spec_ac_resistance Rdc d f, skin_depth_of f).
Proof.
  intros Hf.
  pose proof (skin_depth_arg_pos f Hf) as Harg.
  pose proof (skin_depth_of_pos f Hf) as Hd.
  unfold calculate_ac_resistance, spec_ac_resistance, skin_ratio.
  rewrite fdiv_ok by pos. cbn [bind].
  rewrite fsqrt_ok by lra. cbn [bind]. fold (skin_depth_of f).
  rewrite fdiv_ok by lra. cbn [bind].
  unfold Rgtb.
  destruct (Rlt_dec 2 (d / 2 / skin_depth_of f)).
  - rewrite fdiv_ok by lra. reflexivity.
  - reflexivity.
Qed.


Lemma spec_ac_resistance_scale (Rdc d f : R) :
  spec_ac_resistance Rdc d f = Rdc * skin_factor d f.
Proof.
  unfold skin_factor, spec_ac_resistance.
  destruct (Rlt_dec 2 (skin_ratio d f)); ring.
Qed.

Lemma skin_factor_ge_1 (d f : R) : 0 < f -> 1 <= skin_factor d f.
Proof.
  intros Hf. pose proof (skin_depth_of_pos f Hf) as Hd.
  unfold skin_factor, spec_ac_resistance.
  destruct (Rlt_dec 2 (skin_ratio d f)) as [Hr | Hr].
  - unfold skin_ratio in Hr.
    replace (d / 2 / (2 * skin_depth_of f)) with (d / 2 / skin_depth_of f / 2)
      by (field; lra).
    lra.
  - assert (0 <= skin_ratio d f ^ 4).
    { replace (skin_ratio d f ^ 4) with ((skin_ratio d f ^ 2) ^ 2) by ring.
      apply pow2_ge_0. }
    lra.
Qed.

Lemma spec_ac_resistance_pos (Rdc d f : R) :
  0 < Rdc -> 0 < f -> 0 < spec_ac_resistance Rdc d f.
Proof.
  intros HR Hf. rewrite spec_ac_resistance_scale.
  pose proof (skin_factor_ge_1 d f Hf). pos.
Qed.

(** ** Inductances and coupling *)

Lemma calculate_self_inductance_eq (turns : Z) (r d : R) :
  (0 < turns)%Z -> 0 < r -> 0 < d ->
  calculate_self_inductance turns r d = Ok (solenoid_inductance turns r d).
Proof.
  intros Ht Hr Hd.
  assert (Hl : 0 < IZR turns * d) by pos.
  assert (Hq : 0 < 0.9 * r / (IZR turns * d)) by pos.
  unfold calculate_self_inductance, solenoid_inductance.
  rewrite fdiv_ok by lra. cbn [bind].
  rewrite fdiv_ok by lra. cbn [bind].
  rewrite fdiv_ok by lra. reflexivity.
Qed.

Lemma solenoid_inductance_pos (turns : Z) (r d : R) :
  (0 < turns)%Z -> 0 < r -> 0 < d -> 0 < solenoid_inductance turns r d.
Proof.
  intros Ht Hr Hd.
  assert (Hl : 0 < IZR turns * d) by pos.
  assert (Hq : 0 < 0.9 * r / (IZR turns * d)) by pos.
  unfold solenoid_inductance. cbv zeta. pos.
Qed.

Lemma mutual_base_pos (r1 r2 dist : R) :
  0 < r1 -> 0 < r2 -> 0 < (r1 ^ 2 + r2 ^ 2) / 2 + dist ^ 2.
Proof.
  intros H1 H2. pose proof (pow2_ge_0 dist).
  assert (0 < r1 ^ 2) by pos. assert (0 < r2 ^ 2) by pos. lra.
Qed.

Lemma calculate_mutual_inductance_eq (n1 n2 : Z) (r1 r2 dist : R) :
  0 < r1 -> 0 < r2 ->
  calculate_mutual_inductance n1 n2 r1 r2 dist
  = Ok (coaxial_mutual n1 n2 r1 r2 dist).
Proof.
  intros H1 H2. pose proof (mutual_base_pos r1 r2 dist H1 H2) as Hb.
  unfold calculate_mutual_inductance, coaxial_mutual.
  rewrite fpow_pos by exact Hb. cbn [bind].
  rewrite fdiv_ok by pos. reflexivity.
Qed.

Lemma coaxial_mutual_pos (n1 n2 : Z) (r1 r2 dist : R) :
  (0 < n1)%Z -> (0 < n2)%Z -> 0 < r1 -> 0 < r2 ->
  0 < coaxial_mutual n1 n2 r1 r2 dist.
Proof.
  intros Hn1 Hn2 H1 H2. unfold coaxial_mutual. pos.
Qed.


Lemma calculate_coupling_coefficient_eq (L1 L2 M : R) :
  0 < L1 -> 0 < L2 ->
  calculate_coupling_coefficient L1 L2 M = Ok (M / sqrt (L1 * L2)).
Proof.
  intros H1 H2. assert (0 < L1 * L2) by pos. assert (0 < sqrt (L1 * L2)) by pos.
  unfold calculate_coupling_coefficient.
  rewrite !Rgtb_true by assumption. cbn [andb].
  rewrite fsqrt_ok by lra. cbn [bind].
  rewrite fdiv_ok by lra. reflexivity.
Qed.

(** The guard of the coupling coefficient: 0 for a non-positive inductance. *)
Lemma calculate_coupling_coefficient_fallback (L1 L2 M : R) :
  L1 <= 0 \/ L2 <= 0 -> calculate_coupling_coefficient L1 L2 M = Ok 0.
Proof.
  intros [H | H]; unfold calculate_coupling_coefficient.
  - rewrite (Rgtb_false L1 0 H). reflexivity.
  - rewrite (Rgtb_false L2 0 H). rewrite andb_false_r. reflexivity.
Qed.

Lemma calculate_resonant_capacitance_eq (L f : R) :
  0 < L -> 0 < f ->
  calculate_resonant_capacitance L f = Ok (1 / ((2 * PI * f) ^ 2 * L)).
Proof.
  intros HL Hf. unfold calculate_resonant_capacitance. cbv zeta.
  rewrite fdiv_ok by pos. reflexivity.
Qed.

Lemma wire_dc_resistance_pos (turns : Z) (r d : R) :
  (0 < turns)%Z -> 0 < r -> 0 < d -> 0 < wire_dc_resistance turns r d.
Proof. intros Ht Hr Hd. unfold wire_dc_resistance. pos. Qed.

(** ** The link efficiency as a function of the load *)




Section Link.

Variables R1 R2 X RL : R.
Hypothesis HR1 : 0 < R1.
Hypothesis HR2 : 0 < R2.
Hypothesis HX : 0 < X.
Hypothesis HRL : 0 <= RL.



End Link.

(** ** The aggregator on coil-valid input *)

Lemma domain_valid_coil_valid (params : SimulationParams) :
  domain_valid params -> coil_valid params.
Proof. unfold domain_valid, coil_valid. tauto. Qed.

Lemma example_params_valid : domain_valid example_params.
Proof. unfold domain_valid, example_params; simpl. repeat split; lra || lia. Qed.


Section Valid.

Variable params : SimulationParams.
Hypothesis Hvalid : coil_valid params.

Lemma valid_n1 : (0 < params.(primary_turns))%Z.
Proof. apply Hvalid. Qed.

Lemma valid_n2 : (0 < params.(secondary_turns))%Z.
Proof. apply Hvalid. Qed.

Lemma valid_r : 0 < params.(coil_radius).
Proof. apply Hvalid. Qed.

Lemma valid_d : 0 < params.(wire_diameter).
Proof. apply Hvalid. Qed.

Lemma valid_f : 0 < params.(frequency).
Proof. apply Hvalid. Qed.

Lemma valid_L1 :
  0 < solenoid_inductance
        params.(primary_turns) params.(coil_radius) params.(wire_diameter).
Proof. apply solenoid_inductance_pos; apply Hvalid. Qed.

Lemma valid_L2 :
  0 < solenoid_inductance
        params.(secondary_turns) params.(coil_radius) params.(wire_diameter).
Proof. apply solenoid_inductance_pos; apply Hvalid. Qed.

Lemma valid_M :
  0 < coaxial_mutual params.(primary_turns) params.(secondary_turns)
        params.(coil_radius) params.(coil_radius) params.(air_gap).
Proof. apply coaxial_mutual_pos; apply Hvalid. Qed.

Lemma valid_omega : 0 < 2 * PI * params.(frequency).
Proof. pose proof valid_f. pos. Qed.

Lemma valid_R1_dc :
  0 < wire_dc_resistance
        params.(primary_turns) params.(coil_radius) params.(wire_diameter).
Proof. apply wire_dc_resistance_pos; apply Hvalid. Qed.

Lemma valid_R2_dc :
  0 < wire_dc_resistance
        params.(secondary_turns) params.(coil_radius) params.(wire_diameter).
Proof. apply wire_dc_resistance_pos; apply Hvalid. Qed.

Lemma valid_R1_ac :
  0 < spec_ac_resistance
        (wire_dc_resistance
           params.(primary_turns) params.(coil_radius) params.(wire_diameter))
        params.(wire_diameter) params.(frequency).
Proof. apply spec_ac_resistance_pos; [apply valid_R1_dc | apply valid_f]. Qed.

Lemma valid_R2_ac :
  0 < spec_ac_resistance
        (wire_dc_resistance
           params.(secondary_turns) params.(coil_radius) params.(wire_diameter))
        params.(wire_diameter) params.(frequency).
Proof. apply spec_ac_resistance_pos; [apply valid_R2_dc | apply valid_f]. Qed.

(** On coil-valid input no stage raises and every guard takes its main
    branch, except the guards on the load, the input voltage and the
    output power, which the closed form keeps. *)
Lemma calculate_power_transfer_valid :
  calculate_power_transfer params = Ok (power_transfer_values params).
Proof.
  pose proof valid_n1 as Hn1. pose proof valid_n2 as Hn2.
  pose proof valid_r as Hr. pose proof valid_d as Hd. pose proof valid_f as Hf.
  pose proof valid_L1 as HL1. pose proof valid_L2 as HL2.
  pose proof valid_M as HM. pose proof valid_omega as Hw.
  pose proof valid_R1_dc as HR1. pose proof valid_R2_dc as HR2.
  pose proof valid_R1_ac as HA1. pose proof valid_R2_ac as HA2.
  unfold calculate_power_transfer, power_transfer_values.
  rewrite !calculate_self_inductance_eq by assumption. cbn [bind].
  rewrite calculate_mutual_inductance_eq by assumption. cbn [bind].
  name_of HL1 L1. name_of HL2 L2. name_of HM M.
  rewrite calculate_coupling_coefficient_eq by assumption. cbn [bind].
  rewrite !calculate_resonant_capacitance_eq by assumption. cbn [bind].
  rewrite !fdiv_ok by pos. cbn [bind].
  fold (wire_dc_resistance
          params.(primary_turns) params.(coil_radius) params.(wire_diameter)).
  fold (wire_dc_resistance
          params.(secondary_turns) params.(coil_radius) params.(wire_diameter)).
  name_of HR1 R1_dc. name_of HR2 R2_dc.
  rewrite !calculate_ac_resistance_eq by assumption. cbn [bind].
  name_of HA1 R1_ac. name_of HA2 R2_ac. name_of Hw omega.
  assert (HQ1 : 0 < omega * L1 / R1_ac) by pos.
  assert (HQ2 : 0 < omega * L2 / R2_ac) by pos.
  assert (HkQ : 0 < (M / sqrt (L1 * L2)) ^ 2
                    * (omega * L1 / R1_ac) * (omega * L2 / R2_ac)) by pos.
  assert (HX : 0 < (omega * M) ^ 2) by pos.
  rewrite (Rgtb_true R1_ac 0), (Rgtb_true R2_ac 0) by assumption.
  rewrite !fdiv_ok by pos. cbn [bind].
  rewrite (Rgtb_true _ 0 HkQ).
  rewrite fsqrt_ok by lra. cbn [bind].
  pose proof (sqrt_pos (1 + (M / sqrt (L1 * L2)) ^ 2
                            * (omega * L1 / R1_ac) * (omega * L2 / R2_ac))) as Hs.
  rewrite fdiv_ok by (apply Rgt_not_eq, pow_lt; lra). cbn [bind].
  rewrite (Rgtb_true _ 0 HX). cbn [andb].
  rewrite (Rgtb_true R1_dc 0 HR1).
  rewrite (fdiv_ok R1_ac R1_dc) by lra.
  rewrite (Rgtb_true _ 0 HQ1), (Rgtb_true _ 0 HQ2). cbn [andb].
  rewrite fsqrt_ok by (apply Rlt_le; pos). cbn [bind].
  rewrite (fdiv_ok 1) by pos.
  unfold link_efficiency.
  destruct (Rgtb (R2_ac + load_resistance params) 0) eqn:Et.
  - apply Rgtb_spec in Et.
    assert (HZ : 0 < (omega * M) ^ 2 / (R2_ac + load_resistance params)) by pos.
    repeat (rewrite fdiv_ok by lra; cbn [bind]).
    destruct (Rgtb (input_voltage params) 0) eqn:EV;
      [apply Rgtb_spec in EV; rewrite fdiv_ok by lra |]; cbn [bind];
      (destruct (Rgtb (load_resistance params) 0) eqn:EL; cbn [andb bind];
         [| reflexivity]);
      (match goal with
       | |- context [Rgtb (input_power params * ?e) 0] =>
           destruct (Rgtb (input_power params * e) 0) eqn:EP
       end; cbn [bind]; [| reflexivity]);
      apply Rgtb_spec in EL, EP;
      rewrite fdiv_ok by lra; cbn [bind];
      rewrite fsqrt_ok by (apply Rlt_le; pos); reflexivity.
  - cbn [bind].
    destruct (Rgtb (input_voltage params) 0) eqn:EV;
      [apply Rgtb_spec in EV; rewrite fdiv_ok by lra |]; cbn [bind];
      (destruct (Rgtb (load_resistance params) 0) eqn:EL; cbn [andb bind];
         [| reflexivity]);
      (destruct (Rgtb (input_power params * 0) 0) eqn:EP; cbn [bind];
         [| reflexivity]);
      apply Rgtb_spec in EP; lra.
Qed.

End Valid.

Lemma example_run :
  calculate_power_transfer example_params
  = Ok (power_transfer_values example_params).
Proof.
  apply calculate_power_transfer_valid, domain_valid_coil_valid,
    example_params_valid.
Qed.

(** * Properties of the pipeline *)

(** ** Efficiency against the theoretical maximum *)



(** ** Energy balance *)



(** ** Coupling against the air gap *)



(** ** The skin-effect model *)



(** The boundary is reached: a wire whose radius is exactly two skin depths
    is in the thin-wire regime, with factor 1 + 2^4/48. *)
Lemma ac_resistance_at_threshold (dc_resistance frequency : R) :
  0 < frequency ->
  calculate_ac_resistance dc_resistance (4 * skin_depth_of frequency) frequency
  = Ok (dc_resistance * (1 + 2 ^ 4 / 48), skin_depth_of frequency).
Proof.
  intros Hf. pose proof (skin_depth_of_pos frequency Hf) as Hd.
  rewrite (calculate_ac_resistance_eq _ _ _ Hf).
  unfold spec_ac_resistance, skin_ratio.
  replace (4 * skin_depth_of frequency / 2 / skin_depth_of frequency) with 2
    by (field; lra).
  destruct (Rlt_dec 2 2); [lra | reflexivity].
Qed.

(** ** Degenerate denominators *)

Lemma calculate_self_inductance_zero_turns (radius wd : R) :
  calculate_self_inductance 0 radius wd = Raise ZeroDivisionError.
Proof.
  unfold calculate_self_inductance. cbv zeta.
  rewrite (fdiv_by_zero _ (0 * wd)) by ring. reflexivity.
Qed.

Lemma calculate_self_inductance_zero_diameter (turns : Z) (radius : R) :
  calculate_self_inductance turns radius 0 = Raise ZeroDivisionError.
Proof.
  unfold calculate_self_inductance. cbv zeta.
  rewrite (fdiv_by_zero _ (IZR turns * 0)) by ring. reflexivity.
Qed.

Lemma calculate_resonant_capacitance_zero_inductance (f : R) :
  calculate_resonant_capacitance 0 f = Raise ZeroDivisionError.
Proof.
  unfold calculate_resonant_capacitance. cbv zeta. apply fdiv_by_zero. ring.
Qed.

Lemma calculate_resonant_capacitance_zero_frequency (L : R) :
  calculate_resonant_capacitance L 0 = Raise ZeroDivisionError.
Proof.
  unfold calculate_resonant_capacitance. cbv zeta. apply fdiv_by_zero. ring.
Qed.

(** A coil of radius zero has inductance zero: this stage does return. *)
Lemma calculate_self_inductance_zero_radius (turns : Z) (wd : R) :
  (0 < turns)%Z -> 0 < wd -> calculate_self_inductance turns 0 wd = Ok 0.
Proof.
  intros Ht Hd. assert (Hl : 0 < IZR turns * wd) by pos.
  assert (Hq : 0.9 * 0 / (IZR turns * wd) = 0) by (unfold Rdiv; ring).
  unfold calculate_self_inductance. cbv zeta.
  rewrite fdiv_ok by lra. cbn [bind].
  rewrite fdiv_ok by lra. cbn [bind].
  rewrite fdiv_ok by lra. f_equal. unfold Rdiv. ring.
Qed.

(** C5, as the code behaves.  Where a formula denominator is zero,
    that is for a zero coil length (turns = 0 or wire_diameter = 0) in the
    self-inductance and for a zero inductance or a zero frequency in the
    resonant capacitance, the stage raises ZeroDivisionError instead of
    returning the fallback 0, and [calculate_power_transfer] raises with
    it; at inductance zero this happens right after the coupling
    coefficient has taken its own fallback 0. *)
Theorem zero_denominator_raises :
  (forall radius wd,
     calculate_self_inductance 0 radius wd = Raise ZeroDivisionError)
  /\ (forall turns radius,
        calculate_self_inductance turns radius 0 = Raise ZeroDivisionError)
  /\ (forall f, calculate_resonant_capacitance 0 f = Raise ZeroDivisionError)
  /\ (forall L, calculate_resonant_capacitance L 0 = Raise ZeroDivisionError)
  /\ calculate_power_transfer zero_turns_params = Raise ZeroDivisionError
  /\ (forall M, calculate_coupling_coefficient 0 0 M = Ok 0)
  /\ calculate_power_transfer zero_radius_params = Raise ZeroDivisionError.
Proof.
  repeat split.
  - exact calculate_self_inductance_zero_turns.
  - exact calculate_self_inductance_zero_diameter.
  - exact calculate_resonant_capacitance_zero_inductance.
  - exact calculate_resonant_capacitance_zero_frequency.
  - unfold calculate_power_transfer, zero_turns_params. fields.
    rewrite calculate_self_inductance_zero_turns. reflexivity.
  - intros M. apply calculate_coupling_coefficient_fallback. lra.
  - unfold calculate_power_transfer, zero_radius_params. fields.
    rewrite calculate_self_inductance_zero_radius by (lia || lra). cbn [bind].
    unfold calculate_mutual_inductance. cbv zeta.
    rewrite fpow_pos by lra. cbn [bind].
    rewrite fdiv_ok by pos. cbn [bind].
    rewrite calculate_coupling_coefficient_fallback by lra. cbn [bind].
    rewrite calculate_resonant_capacitance_zero_inductance. reflexivity.
Qed.

(** ** Totality *)



(** ** Coupling status *)

(** C7. The status of a returned result is "over-coupled" exactly when
    k > k_critical; only for k <= k_critical is the band test applied,
    giving "critically-coupled" exactly when |k - k_critical| < 0.01 and
    "under-coupled" otherwise; k_critical is 1/sqrt(Q1*Q2) when both
    quality factors are positive and 0 otherwise.  In particular k above
    k_critical by less than 0.01 is "over-coupled". *)
Theorem coupling_status_order
  (params : SimulationParams) (result : PowerTransferResult) :
  calculate_power_transfer params = Ok result ->
  let k := result.(coupling).(coefficient) in
  let k_critical := result.(coupling).(critical_k) in
  let st := result.(coupling).(status) in
  let q1 := result.(quality_factors).(Q1) in
  let q2 := result.(quality_factors).(Q2) in
  (st = "over-coupled"%string <-> k > k_critical)
  /\ (k <= k_critical ->
      (st = "critically-coupled"%string <-> Rabs (k - k_critical) < 0.01))
  /\ (st = "under-coupled"%string <->
      k <= k_critical /\ ~ Rabs (k - k_critical) < 0.01)
  /\ (q1 > 0 /\ q2 > 0 -> k_critical = 1 / sqrt (q1 * q2))
  /\ (~ (q1 > 0 /\ q2 > 0) -> k_critical = 0)
  /\ (k > k_critical -> Rabs (k - k_critical) < 0.01 ->
      st = "over-coupled"%string).
Proof.
  intros H. unfold calculate_power_transfer in H.
  inv_bind H. injection H as <-. fields.
  match goal with
  | Hk : (if Rgtb ?a 0 && Rgtb ?b 0 then bind (fsqrt (?a * ?b)) _ else _)
         = Ok ?kc |- _ =>
      assert (HK : (a > 0 /\ b > 0 -> kc = 1 / sqrt (a * b))
                   /\ (~ (a > 0 /\ b > 0) -> kc = 0));
      [ destruct (Rgtb a 0) eqn:Ea; destruct (Rgtb b 0) eqn:Eb; cbn [andb] in Hk;
        [ apply bind_Ok in Hk; destruct Hk as (s & Hs & Hk);
          apply fsqrt_Ok_inv in Hs; apply fdiv_Ok_inv in Hk;
          destruct Hs as [_ ->]; destruct Hk as [_ ->];
          apply Rgtb_spec in Ea, Eb
        | injection Hk as <-; apply Rgtb_false_iff in Eb
        | injection Hk as <-; apply Rgtb_false_iff in Ea
        | injection Hk as <-; apply Rgtb_false_iff in Ea ];
        (split; intros; [reflexivity || lra | reflexivity || tauto])
      | clear Hk ]
  end.
  match goal with
  | |- context [Rgtb ?k ?kc] =>
      destruct (Rgtb k kc) eqn:E1;
      [ apply Rgtb_spec in E1 | apply Rgtb_false_iff in E1 ];
      (destruct (Rgtb 0.01 (Rabs (k - kc))) eqn:E2;
       [ apply Rgtb_spec in E2 | apply Rgtb_false_iff in E2 ])
  end;
  (repeat split; intros; try reflexivity; try discriminate; try lra;
   try tauto).
Qed.

Lemma coupling_status_order_witness :
  let result := power_transfer_values example_params in
  let k := result.(coupling).(coefficient) in
  let k_critical := result.(coupling).(critical_k) in
  let st := result.(coupling).(status) in
  let q1 := result.(quality_factors).(Q1) in
  let q2 := result.(quality_factors).(Q2) in
  calculate_power_transfer example_params = Ok result
  /\ (st = "over-coupled"%string <-> k > k_critical)
  /\ (k <= k_critical ->
      (st = "critically-coupled"%string <-> Rabs (k - k_critical) < 0.01))
  /\ (st = "under-coupled"%string <->
      k <= k_critical /\ ~ Rabs (k - k_critical) < 0.01)
  /\ (q1 > 0 /\ q2 > 0 -> k_critical = 1 / sqrt (q1 * q2))
  /\ (~ (q1 > 0 /\ q2 > 0) -> k_critical = 0)
  /\ (k > k_critical -> Rabs (k - k_critical) < 0.01 ->
      st = "over-coupled"%string).
Proof.
  split; [exact example_run |].
  apply (coupling_status_order example_params _ example_run).
Defined.

(** ** Skin-effect ratio *)



(** ** Range of the efficiency *)



(** ** One resistance ratio for both coils *)



(** * Further properties of the stages *)

(** ** Self-inductance *)





(** ** Mutual inductance *)






(** ** Coupling coefficient and resonance *)




(** ** Skin effect *)








(** * Further properties of the aggregator *)

















(** * The sweep drivers *)

(** ** Samples *)


Lemma linspace_zero (start stop : R) : linspace start stop 0 = Ok [].
Proof. reflexivity. Qed.

(** The samples are evenly spaced from [start]; overwriting the last one
    with [stop] changes nothing in exact arithmetic. *)
Lemma linspace_samples (start stop : R) (num : Z) :
  (0 <= num)%Z ->
  linspace start stop num
  = Ok (map (fun i => start + INR i * ((stop - start) / IZR (num - 1)))
            (seq 0 (Z.to_nat num))).
Proof.
  intros H. unfold linspace. cbv zeta.
  destruct (Z.ltb_spec num 0) as [Hn | _]; [lia |].
  destruct (Z.ltb_spec 0 (num - 1)) as [Hd | Hd].
  - destruct (Z.ltb_spec 1 num) as [_ | H1]; [| lia].
    f_equal.
    destruct (Z.to_nat num) as [| m] eqn:Em; [lia |].
    rewrite seq_S, !map_app. cbn [map plus].
    rewrite removelast_last. apply (f_equal2 (@app R)).
    + apply map_ext. intros i. ring.
    + apply (f_equal (fun x => [x])).
      replace (IZR (num - 1)) with (INR m).
      * field. apply not_0_INR. lia.
      * rewrite INR_IZR_INZ. f_equal. lia.
  - destruct (Z.ltb_spec 1 num) as [H1 | _]; [lia |].
    assert (Hc : num = 0%Z \/ num = 1%Z) by lia.
    destruct Hc as [-> | ->]; cbn [Z.to_nat Pos.to_nat Pos.iter_op seq map].
    + reflexivity.
    + apply (f_equal (fun x => Ok [x])). simpl INR. ring.
Qed.

Lemma nth_map_lt {A B : Type} (h : A -> B) (l : list A) (i : nat) (d : B) (d' : A) :
  (i < length l)%nat -> nth i (map h l) d = h (nth i l d').
Proof.
  intros Hi. rewrite (nth_indep _ d (h d')) by (rewrite length_map; exact Hi).
  apply map_nth.
Qed.

Lemma linspace_nth (start stop : R) (num : Z) (i : nat) :
  (0 <= num)%Z -> (i < Z.to_nat num)%nat ->
  exists gaps,
    linspace start stop num = Ok gaps
    /\ length gaps = Z.to_nat num
    /\ nth i gaps 0 = start + INR i * ((stop - start) / IZR (num - 1)).
Proof.
  intros Hn Hi. eexists. split; [apply linspace_samples, Hn |].
  split; [now rewrite length_map, length_seq |].
  rewrite (nth_map_lt _ _ _ _ 0%nat) by (now rewrite length_seq).
  rewrite seq_nth by exact Hi. reflexivity.
Qed.

(** ** Samples of the closed form *)



(** ** The air-gap sweep *)


(** A sample that raises ends the sweep with its error. *)
Lemma sweep_airgap_loop_raises (point : R -> SimulationParams)
  (g : R) (rest : list R) (acc : AirgapColumns) (e : exn) :
  calculate_power_transfer (point g) = Raise e ->
  sweep_airgap_loop point (g :: rest) acc = Raise e.
Proof. intros H. cbn [sweep_airgap_loop]. rewrite H. reflexivity. Qed.

Section AirgapSweepProps.

Variables f P r RL V d : R.
Variables n1 n2 : Z.
Hypothesis Hn1 : (0 < n1)%Z.
Hypothesis Hn2 : (0 < n2)%Z.
Hypothesis Hr : 0 < r.
Hypothesis Hd : 0 < d.
Hypothesis Hf : 0 < f.



End AirgapSweepProps.






(** X20. The air-gap sweep has no partial result: with at least one step,
    an error raised at the first gap (min_gap) is the outcome of the whole
    sweep.  A wire diameter of 0 is such a case. *)
Theorem sweep_airgap_aborts
  (min_gap max_gap : R) (steps : Z) (f P r : R) (n1 n2 : Z) (RL V d : R)
  (e : exn) :
  (1 <= steps)%Z ->
  calculate_power_transfer (airgap_point f P r n1 n2 RL V d min_gap) = Raise e ->
  sweep_airgap min_gap max_gap steps f P r n1 n2 RL V d = Raise e.
Proof.
  intros Hs He. unfold sweep_airgap.
  rewrite linspace_samples by lia. cbn [bind].
  destruct (Z.to_nat steps) as [| m] eqn:Em; [lia |].
  cbn [seq map].
  replace (min_gap + INR 0 * ((max_gap - min_gap) / IZR (steps - 1)))
    with min_gap by (simpl INR; ring).
  rewrite (sweep_airgap_loop_raises _ _ _ _ e He). reflexivity.
Qed.

Lemma sweep_airgap_aborts_witness :
  sweep_airgap 0.001 0.05 50 200000 10 0.025 20 20 10 24 0
  = Raise ZeroDivisionError.
Proof.
  apply (sweep_airgap_aborts 0.001 0.05 50 200000 10 0.025 20 20 10 24 0);
    [lia |].
  unfold calculate_power_transfer, airgap_point. fields.
  rewrite calculate_self_inductance_zero_diameter. reflexivity.
Defined.

(** ** The frequency sweep *)




(** ** The drive frequency of the aggregator *)




